(** * breaker/print.py: cumulative event counts from a two-column log

    The script reads [data_out2.csv], splits the text into lines and each
    line into a kind and a timestamp, keeps a running count for the kinds
    [pipeline] and [audio_engine], and hands four lists to matplotlib.

    The development embeds the script from the text [data] returned by
    [f.read()] on: the string built-ins it calls ([str.strip], [str.split],
    [int], tuple unpacking, [==], [list.append]) with the behaviour they have
    in CPython 3, then the loop and the plotting calls. *)

From Stdlib Require Import Ascii String List ZArith NArith Lia Bool.
Import ListNotations.

Set Implicit Arguments.

(** ** Python strings

    A [str] is a sequence of Unicode code points. *)

Definition char := N.
Definition str := list char.

(** A string literal of the source (all of them are ASCII). *)
Definition lit (s : string) : str := map N_of_ascii (list_ascii_of_string s).

Fixpoint eqb_str (a b : str) : bool :=
  match a, b with
  | [], [] => true
  | x :: a', y :: b' => N.eqb x y && eqb_str a' b'
  | _, _ => false
  end.

(** [Py_UNICODE_ISSPACE]: what [str.isspace] and [str.strip] call whitespace. *)
Definition isspace (c : char) : bool :=
  ((0x09 <=? c) && (c <=? 0x0D))%N       (* \t \n \v \f \r *)
  || ((0x1C <=? c) && (c <=? 0x20))%N    (* FS GS RS US and the space *)
  || (c =? 0x85)%N || (c =? 0xA0)%N || (c =? 0x1680)%N
  || ((0x2000 <=? c) && (c <=? 0x200A))%N
  || (c =? 0x2028)%N || (c =? 0x2029)%N || (c =? 0x202F)%N
  || (c =? 0x205F)%N || (c =? 0x3000)%N.

Fixpoint dropwhile (p : char -> bool) (s : str) : str :=
  match s with
  | [] => []
  | c :: s' => if p c then dropwhile p s' else s
  end.

(** [s.strip()] with no argument: whitespace is removed at both ends. *)
Definition lstrip (s : str) : str := dropwhile isspace s.
Definition rstrip (s : str) : str := rev (dropwhile isspace (rev s)).
Definition strip (s : str) : str := rstrip (lstrip s).

(** [s.startswith(sep)]. *)
Fixpoint startswith (sep s : str) : bool :=
  match sep, s with
  | [], _ => true
  | _ :: _, [] => false
  | a :: sep', c :: s' => N.eqb a c && startswith sep' s'
  end.

(** [s.find(sep)]: the index of the first occurrence, [None] for -1. *)
Fixpoint find (sep s : str) : option nat :=
  if startswith sep s then Some 0
  else match s with
       | [] => None
       | _ :: s' => option_map S (find sep s')
       end.

(** [s.split(sep)] for a non-empty [sep]: cut at the first occurrence, go on
    behind it, and end with what is left.  [fuel] bounds the number of cuts;
    [split] gives it the length of the string, which is never used up
    ([split_unfold]). *)
Fixpoint split_from (fuel : nat) (sep s : str) : list str :=
  match fuel with
  | O => [s]
  | S fuel' =>
      match find sep s with
      | None => [s]
      | Some i => firstn i s :: split_from fuel' sep (skipn (i + length sep) s)
      end
  end.

Definition split (sep s : str) : list str := split_from (length s) sep s.

(** The number of positions of [s] at which [sep] occurs. *)
Fixpoint count (sep s : str) : nat :=
  (if startswith sep s then 1 else 0) +
  match s with
  | [] => 0
  | _ :: s' => count sep s'
  end.

(** ** Exceptions

    Nothing in the script catches an exception: one raised in the loop ends
    the run. *)

Inductive value_error :=
| not_enough_values    (* not enough values to unpack (expected 2, got ..) *)
| too_many_values      (* too many values to unpack (expected 2) *)
| invalid_literal      (* invalid literal for int() with base 10 *)
| exceeds_digit_limit. (* Exceeds the limit for integer string conversion *)

Inductive exception := ValueError (why : value_error).

Inductive result (A : Type) :=
| Ok (a : A)
| Raise (e : exception).
Arguments Ok {A} a.
Arguments Raise {A} e.

Definition bind {A B : Type} (r : result A) (k : A -> result B) : result B :=
  match r with
  | Ok a => k a
  | Raise e => Raise e
  end.

Notation "x <- r ;; k" := (bind r (fun x => k))
  (at level 61, r at next level, right associativity).

(** [a, b = l]: unpacking into two targets. *)
Definition unpack2 (l : list str) : result (str * str) :=
  match l with
  | [] | [_] => Raise (ValueError not_enough_values)
  | [a; b] => Ok (a, b)
  | _ :: _ :: _ :: _ => Raise (ValueError too_many_values)
  end.

(** ** [int(s)]

    What the interpreter supplies and the script does not fix: the decimal
    digits of the Unicode database outside ASCII ([Py_UNICODE_TODECIMAL]) and
    the limit on the number of digits of a converted string
    ([sys.get_int_max_str_digits()], 0 for none, 4300 by default). *)
Record Interpreter := {
  to_decimal : char -> option N;
  to_decimal_lt : forall c d, to_decimal c = Some d -> (d < 10)%N;
  max_str_digits : nat
}.

(** [Py_ISSPACE], the whitespace of the ASCII parser. *)
Definition ascii_isspace (c : char) : bool :=
  (((0x09 <=? c) && (c <=? 0x0D)) || (c =? 0x20))%N.

Definition digit_value (c : char) : option Z :=
  if ((0x30 <=? c) && (c <=? 0x39))%N then Some (Z.of_N (c - 0x30)) else None.

(** The run of digits and underscores at the head of [s]: its value, the
    number of digits, and the rest; [None] when two underscores meet or the
    run ends with one.  [prev_us] says that the previous character was an
    underscore. *)
Fixpoint scan_digits (prev_us : bool) (digits : nat) (acc : Z) (s : str)
  : option (Z * nat * str) :=
  match s with
  | [] => if prev_us then None else Some (acc, digits, s)
  | c :: s' =>
      if (c =? 0x5F)%N then
        if prev_us then None else scan_digits true digits acc s'
      else
        match digit_value c with
        | Some d => scan_digits false (S digits) (10 * acc + d) s'
        | None => if prev_us then None else Some (acc, digits, s)
        end
  end.

Section Script.

Variable py : Interpreter.

(** Before parsing, [int] leaves an all-ASCII string as it is; in any other
    it maps every whitespace character from 127 up to a space and every
    decimal digit from 127 up to its ASCII digit, and cuts the string with a
    question mark at the first other character from 127 up. *)
Fixpoint transform_decimal_and_space (s : str) : str :=
  match s with
  | [] => []
  | c :: s' =>
      if (c <? 127)%N then c :: transform_decimal_and_space s'
      else if isspace c then 0x20%N :: transform_decimal_and_space s'
      else match to_decimal py c with
           | Some d => (0x30 + d)%N :: transform_decimal_and_space s'
           | None => [0x3F%N]
           end
  end.

Definition to_ascii (s : str) : str :=
  if forallb (fun c => (c <? 128)%N) s then s
  else transform_decimal_and_space s.

Definition over_digit_limit (digits : nat) : bool :=
  (640 <? digits)%nat && (0 <? max_str_digits py)%nat
  && (max_str_digits py <? digits)%nat.

(** [int(s)] in base 10: whitespace, an optional sign, digits with single
    underscores between them, whitespace, and nothing else. *)
Definition int (s : str) : result Z :=
  let s0 := dropwhile ascii_isspace (to_ascii s) in
  let '(sign, s1) :=
    match s0 with
    | c :: r => if (c =? 0x2B)%N then (1, r)
                else if (c =? 0x2D)%N then (-1, r) else (1, s0)
    | [] => (1, s0)
    end%Z in
  if startswith [0x5F%N] s1 then Raise (ValueError invalid_literal)
  else
    match scan_digits false 0 0 s1 with
    | None => Raise (ValueError invalid_literal)
    | Some (v, digits, rest) =>
        if over_digit_limit digits then Raise (ValueError exceeds_digit_limit)
        else if (digits =? 0)%nat then Raise (ValueError invalid_literal)
        else
          match dropwhile ascii_isspace rest with
          | [] => Ok (sign * v)%Z
          | _ :: _ => Raise (ValueError invalid_literal)
          end
    end.

(** ** The script *)

Definition newline : str := Eval cbv in lit (String "010" EmptyString).
Definition separator : str := Eval cbv in lit ", ".
Definition pipeline : str := Eval cbv in lit "pipeline".
Definition audio_engine : str := Eval cbv in lit "audio_engine".

(** The six module-level variables the loop updates. *)
Record State := {
  pipeline_count : Z;
  audio_engine_count : Z;
  x_pipeline : list Z;
  y_pipeline : list Z;
  x_audio_engine : list Z;
  y_audio_engine : list Z
}.

Definition initial : State :=
  {| pipeline_count := 0; audio_engine_count := 0;
     x_pipeline := []; y_pipeline := [];
     x_audio_engine := []; y_audio_engine := [] |}.

(** One iteration of the [for] loop on [line]. *)
Definition body (st : State) (line : str) : result State :=
  fields <- unpack2 (split separator line) ;;
  let '(item, timestamp) := fields in
  timestamp <- int timestamp ;;
  if eqb_str item pipeline then
    let pipeline_count' := (pipeline_count st + 1)%Z in
    Ok {| pipeline_count := pipeline_count';
          audio_engine_count := audio_engine_count st;
          x_pipeline := x_pipeline st ++ [timestamp];
          y_pipeline := y_pipeline st ++ [pipeline_count'];
          x_audio_engine := x_audio_engine st;
          y_audio_engine := y_audio_engine st |}
  else if eqb_str item audio_engine then
    let audio_engine_count' := (audio_engine_count st + 1)%Z in
    Ok {| pipeline_count := pipeline_count st;
          audio_engine_count := audio_engine_count';
          x_pipeline := x_pipeline st;
          y_pipeline := y_pipeline st;
          x_audio_engine := x_audio_engine st ++ [timestamp];
          y_audio_engine := y_audio_engine st ++ [audio_engine_count'] |}
  else Ok st.

Fixpoint for_loop (st : State) (lines : list str) : result State :=
  match lines with
  | [] => Ok st
  | line :: rest => st' <- body st line ;; for_loop st' rest
  end.

(** The lines the loop iterates over: [data.strip().split('\n')]. *)
Definition lines (data : str) : list str := split newline (strip data).

(** The script up to the first plotting call. *)
Definition accumulate (data : str) : result State :=
  for_loop initial (lines data).

(** The calls made to [matplotlib.pyplot], in order. *)
Inductive plt_call :=
| plot (x y : list Z) (label : str)
| xlabel (s : str)
| ylabel (s : str)
| legend
| show.

Definition render (st : State) : list plt_call :=
  [ plot (x_pipeline st) (y_pipeline st) pipeline;
    plot (x_audio_engine st) (y_audio_engine st) audio_engine;
    xlabel (lit "Time"); ylabel (lit "Count"); legend; show ].

(** A run on the file content [data]: the plotting calls made, and the
    exception that ended the run, if any. *)
Definition script (data : str) : list plt_call * option exception :=
  match accumulate data with
  | Ok st => (render st, None)
  | Raise e => ([], Some e)
  end.

(** ** The run as a relation

    The same control flow, one rule per path through the loop body: the
    statement in which an exception is raised, or the branch of the
    [if]/[elif] that is taken. *)

Inductive iteration (st : State) (line : str) : result State -> Prop :=
| iteration_unpack_raises e :
    unpack2 (split separator line) = Raise e ->
    iteration st line (Raise e)
| iteration_int_raises item timestamp e :
    split separator line = [item; timestamp] ->
    int timestamp = Raise e ->
    iteration st line (Raise e)
| iteration_pipeline item timestamp t :
    split separator line = [item; timestamp] ->
    int timestamp = Ok t ->
    item = pipeline ->
    iteration st line
      (Ok {| pipeline_count := pipeline_count st + 1;
             audio_engine_count := audio_engine_count st;
             x_pipeline := x_pipeline st ++ [t];
             y_pipeline := y_pipeline st ++ [pipeline_count st + 1];
             x_audio_engine := x_audio_engine st;
             y_audio_engine := y_audio_engine st |}%Z)
| iteration_audio_engine item timestamp t :
    split separator line = [item; timestamp] ->
    int timestamp = Ok t ->
    item <> pipeline ->
    item = audio_engine ->
    iteration st line
      (Ok {| pipeline_count := pipeline_count st;
             audio_engine_count := audio_engine_count st + 1;
             x_pipeline := x_pipeline st;
             y_pipeline := y_pipeline st;
             x_audio_engine := x_audio_engine st ++ [t];
             y_audio_engine := y_audio_engine st ++ [audio_engine_count st + 1] |}%Z)
| iteration_other item timestamp t :
    split separator line = [item; timestamp] ->
    int timestamp = Ok t ->
    item <> pipeline ->
    item <> audio_engine ->
    iteration st line (Ok st).

Inductive loop : State -> list str -> result State -> Prop :=
| loop_exhausted st :
    loop st [] (Ok st)
| loop_raises st line rest e :
    iteration st line (Raise e) ->
    loop st (line :: rest) (Raise e)
| loop_continues st line rest st' r :
    iteration st line (Ok st') ->
    loop st' rest r ->
    loop st (line :: rest) r.

Inductive runs (data : str) : list plt_call * option exception -> Prop :=
| runs_to_the_chart st :
    loop initial (lines data) (Ok st) ->
    runs data (render st, None)
| runs_into e :
    loop initial (lines data) (Raise e) ->
    runs data ([], Some e).

(** ** The input format, in the words of the specification

    An event record is a kind and a timestamp.  A line is well formed when
    it holds the separator exactly once and what follows the separator
    converts to an integer; it then denotes the record of what precedes the
    separator and that integer. *)

Record event := { kind : str; timestamp : Z }.

Definition line_denotes (line : str) (e : event) : Prop :=
  exists field : str,
    line = kind e ++ separator ++ field
    /\ count separator line = 1
    /\ int field = Ok (timestamp e).

(** An input is well formed when each of its lines is; [events] are the
    records of its lines, in order. *)
Definition well_formed (data : str) (events : list event) : Prop :=
  Forall2 line_denotes (lines data) events.

(** The records of one kind, in input order. *)
Definition of_kind (k : str) (events : list event) : list event :=
  filter (fun e => eqb_str (kind e) k) events.

(** The accumulate operation of the specification on one record: a tracked
    kind has its counter incremented and the point (timestamp, new counter)
    appended to its series; a record of another kind is dropped. *)
Definition tally (st : State) (e : event) : State :=
  if eqb_str (kind e) pipeline then
    {| pipeline_count := pipeline_count st + 1;
       audio_engine_count := audio_engine_count st;
       x_pipeline := x_pipeline st ++ [timestamp e];
       y_pipeline := y_pipeline st ++ [pipeline_count st + 1];
       x_audio_engine := x_audio_engine st;
       y_audio_engine := y_audio_engine st |}%Z
  else if eqb_str (kind e) audio_engine then
    {| pipeline_count := pipeline_count st;
       audio_engine_count := audio_engine_count st + 1;
       x_pipeline := x_pipeline st;
       y_pipeline := y_pipeline st;
       x_audio_engine := x_audio_engine st ++ [timestamp e];
       y_audio_engine := y_audio_engine st ++ [audio_engine_count st + 1] |}%Z
  else st.

(** The counts 1, 2, ..., n. *)
Definition counting (n : nat) : list Z := map Z.of_nat (seq 1 n).

End Script.

(** ** A concrete interpreter and the scenario of the specification *)

(** An interpreter whose Unicode database is left out (no decimal digit
    outside ASCII), with the default limit on digits. *)
Definition ascii_only : Interpreter :=
  {| to_decimal := fun _ => None;
     to_decimal_lt := fun c d (H : @None N = Some d) =>
       match H in (_ = o) return
             match o with None => True | Some d' => (d' < 10)%N end
       with eq_refl => I end;
     max_str_digits := 4300 |}.

Definition lf : string := String "010" EmptyString.

(** The five lines of the scenario, and the record of each. *)
Definition scenario : str :=
  lit ("pipeline, 10" ++ lf ++ "audio_engine, 12" ++ lf ++ "pipeline, 15" ++ lf
       ++ "unknown_kind, 20" ++ lf ++ "pipeline, 30").

Definition scenario_events : list event :=
  [ {| kind := pipeline; timestamp := 10 |};
    {| kind := audio_engine; timestamp := 12 |};
    {| kind := pipeline; timestamp := 15 |};
    {| kind := lit "unknown_kind"; timestamp := 20 |};
    {| kind := pipeline; timestamp := 30 |} ].

(** Further inputs on which the statements below are run: timestamps out of
    order with a newline at the end, a line without the separator, a field
    that is no integer, a content of whitespace, a line with two separators. *)
Definition unsorted : str :=
  lit ("pipeline, 30" ++ lf ++ "audio_engine, 7" ++ lf ++ "pipeline, 10" ++ lf).

Definition unsorted_events : list event :=
  [ {| kind := pipeline; timestamp := 30 |};
    {| kind := audio_engine; timestamp := 7 |};
    {| kind := pipeline; timestamp := 10 |} ].

Definition no_separator : str := lit ("pipeline, 10" ++ lf ++ "pipeline 15").
Definition no_integer : str := lit ("audio_engine, ten" ++ lf ++ "pipeline, 1").
Definition only_whitespace : str := lit (" " ++ lf ++ lf).
Definition two_separators : str := lit ("pipeline, 10" ++ lf ++ "a, b, 1").

(** A text of whitespace only (the empty text too). *)
Definition blank (s : str) : Prop := Forall (fun c => isspace c = true) s.

(** [sep.join(l)], the inverse of [split]: the strings of [l] with [sep]
    between them. *)
Fixpoint join (sep : str) (l : list str) : str :=
  match l with
  | [] => []
  | a :: rest =>
      match rest with
      | [] => a
      | _ :: _ => a ++ sep ++ join sep rest
      end
  end.

(** A log in two parts, and a log with a malformed line before its end. *)
Definition first_part : str :=
  lit (lf ++ "pipeline, 10" ++ lf ++ "audio_engine, 12" ++ lf).
Definition second_part : str := lit ("pipeline, 15" ++ lf ++ "other, 1" ++ lf).
Definition second_part_events : list event :=
  [ {| kind := pipeline; timestamp := 15 |};
    {| kind := lit "other"; timestamp := 1 |} ].
Definition malformed_second_line : str :=
  lit ("pipeline, 10" ++ lf ++ "pipeline 15" ++ lf ++ "a, b, c").

(** A string of the whitespace [int] skips around a number: tab, newline,
    vertical tab, form feed, carriage return, space. *)
Definition ascii_blank (w : str) : Prop :=
  Forall (fun c => ascii_isspace c = true) w.

Section Parser.

Variable py : Interpreter.

(** The two stages of [int] behind [to_ascii], named so that they can be
    stated on: what follows the sign, and the whole ASCII parser.
    [int py s] is [parse_int (to_ascii py s)] ([int_parse_int]). *)
Definition parse_digits (sign : Z) (s1 : str) : result Z :=
  if startswith [0x5F%N] s1 then Raise (ValueError invalid_literal)
  else
    match scan_digits false 0 0 s1 with
    | None => Raise (ValueError invalid_literal)
    | Some (v, digits, rest) =>
        if over_digit_limit py digits
        then Raise (ValueError exceeds_digit_limit)
        else if (digits =? 0)%nat then Raise (ValueError invalid_literal)
        else
          match dropwhile ascii_isspace rest with
          | [] => Ok (sign * v)%Z
          | _ :: _ => Raise (ValueError invalid_literal)
          end
    end.

Definition parse_int (t : str) : result Z :=
  let s0 := dropwhile ascii_isspace t in
  let '(sign, s1) :=
    match s0 with
    | c :: r => if (c =? 0x2B)%N then (1, r)
                else if (c =? 0x2D)%N then (-1, r) else (1, s0)
    | [] => (1, s0)
    end%Z in
  parse_digits sign s1.

End Parser.

(** * Properties *)

(** ** Strings *)

Lemma eqb_str_eq (a b : str) : eqb_str a b = true <-> a = b.
Proof.
  revert b; induction a as [|x a IH]; intros [|y b]; simpl;
    try (split; [discriminate | intros H; inversion H]); [tauto|].
  rewrite andb_true_iff, N.eqb_eq, IH.
  split; [intros [-> ->]; reflexivity | intros H; inversion H; auto].
Qed.

Lemma eqb_str_refl (a : str) : eqb_str a a = true.
Proof. now apply eqb_str_eq. Qed.

Lemma eqb_str_neq (a b : str) : a <> b -> eqb_str a b = false.
Proof.
  intros H; destruct (eqb_str a b) eqn:E; [|reflexivity].
  now apply eqb_str_eq in E.
Qed.

Lemma startswith_app (sep t : str) : startswith sep (sep ++ t) = true.
Proof.
  induction sep as [|a sep IH]; simpl; [reflexivity|].
  now rewrite N.eqb_refl.
Qed.

Lemma startswith_length (sep s : str) :
  startswith sep s = true -> length sep <= length s.
Proof.
  revert s; induction sep as [|a sep IH]; intros [|c s]; simpl;
    try lia; try discriminate.
  rewrite andb_true_iff; intros [_ H]; apply IH in H; lia.
Qed.

Lemma startswith_split (sep s : str) :
  startswith sep s = true -> s = sep ++ skipn (length sep) s.
Proof.
  revert s; induction sep as [|a sep IH]; intros [|c s]; simpl;
    try reflexivity; try discriminate.
  rewrite andb_true_iff, N.eqb_eq; intros [-> H].
  now rewrite <- IH.
Qed.

(** *** [find] *)

Lemma find_cons (sep : str) (c : char) (s : str) :
  find sep (c :: s) =
  if startswith sep (c :: s) then Some 0 else option_map S (find sep s).
Proof. destruct sep; reflexivity. Qed.

Lemma find_nil (sep : str) : sep <> [] -> find sep [] = None.
Proof. destruct sep; [congruence | reflexivity]. Qed.

Lemma find_some (sep s : str) (i : nat) :
  find sep s = Some i ->
  s = firstn i s ++ sep ++ skipn (i + length sep) s
  /\ i + length sep <= length s.
Proof.
  revert i; induction s as [|c s IH]; intros i.
  - destruct sep; simpl; [|discriminate].
    intros H; injection H as <-; auto.
  - rewrite find_cons.
    destruct (startswith sep (c :: s)) eqn:E.
    + intros H; injection H as <-.
      split; [now apply startswith_split | now apply startswith_length].
    + destruct (find sep s) as [j|]; simpl; [|discriminate].
      intros H; injection H as <-.
      destruct (IH j eq_refl) as [H1 H2].
      split; [simpl; now rewrite <- H1 | simpl; lia].
Qed.

Lemma find_none_count (sep s : str) : find sep s = None <-> count sep s = 0.
Proof.
  induction s as [|c s IH].
  - destruct sep; simpl; split; (discriminate || reflexivity).
  - rewrite find_cons; cbn [count].
    destruct (startswith sep (c :: s)).
    + split; [discriminate | simpl; lia].
    + rewrite <- IH.
      destruct (find sep s); simpl; split; (discriminate || reflexivity).
Qed.

(** *** [split] does not run out of fuel *)

Lemma split_from_enough (sep : str) (f1 f2 : nat) (s : str) :
  sep <> [] -> length s <= f1 -> length s <= f2 ->
  split_from f1 sep s = split_from f2 sep s.
Proof.
  intros Hsep; revert f2 s.
  assert (Hnil : forall f, split_from f sep [] = [[]]).
  { intros [|f]; cbn [split_from]; [reflexivity | now rewrite find_nil]. }
  induction f1 as [|f1 IH]; intros f2 s H1 H2.
  - destruct s; [|simpl in H1; lia]. now rewrite !Hnil.
  - destruct f2 as [|f2].
    + destruct s; [|simpl in H2; lia]. now rewrite !Hnil.
    + simpl. destruct (find sep s) as [i|] eqn:E; [|reflexivity].
      f_equal. apply find_some in E as [_ E].
      assert (0 < length sep) by (destruct sep; [congruence | simpl; lia]).
      apply IH; rewrite length_skipn; lia.
Qed.

Lemma split_unfold (sep s : str) :
  sep <> [] ->
  split sep s =
  match find sep s with
  | None => [s]
  | Some i => firstn i s :: split sep (skipn (i + length sep) s)
  end.
Proof.
  intros Hsep. unfold split.
  destruct s as [|c s]; [now rewrite find_nil|].
  cbn [length split_from].
  destruct (find sep (c :: s)) as [i|] eqn:E; [|reflexivity].
  f_equal. apply find_some in E as [_ E].
  assert (0 < length sep) by (destruct sep; [congruence | simpl; lia]).
  cbn [length] in E.
  apply split_from_enough; trivial; rewrite length_skipn; cbn [length]; lia.
Qed.

Lemma split_not_found (sep s : str) :
  sep <> [] -> count sep s = 0 -> split sep s = [s].
Proof.
  intros Hsep H. rewrite split_unfold by assumption.
  apply find_none_count in H. now rewrite H.
Qed.

(** *** Occurrences before a known one *)

Lemma count_app_le (sep k r : str) : count sep r <= count sep (k ++ r).
Proof. induction k as [|c k IH]; simpl; lia. Qed.

Lemma count_startswith (sep s : str) :
  startswith sep s = true -> 1 <= count sep s.
Proof. intros H; destruct s; simpl in *; rewrite H; lia. Qed.

Lemma find_only_occurrence (sep k r : str) :
  startswith sep r = true ->
  count sep (k ++ r) = 1 ->
  find sep (k ++ r) = Some (length k).
Proof.
  intros Hr; induction k as [|c k IH]; intros Hc.
  - destruct r; simpl in *; now rewrite Hr.
  - cbn [app] in *. rewrite find_cons. cbn [count] in Hc.
    pose proof (count_app_le sep k r) as Hle.
    pose proof (count_startswith _ _ Hr) as Hge.
    destruct (startswith sep (c :: k ++ r)); [lia|].
    rewrite IH by lia. reflexivity.
Qed.

(** *** A separator of two different characters

    Two occurrences of such a separator cannot overlap, so the occurrences
    are exactly the cuts [split] makes. *)

Section TwoCharacters.

Variables a b : char.
Hypothesis a_neq_b : a <> b.

Let sep : str := [a; b].

Lemma count_behind_separator (t : str) : count sep (sep ++ t) = S (count sep t).
Proof.
  unfold sep. change ([a; b] ++ t) with (a :: b :: t). cbn [count].
  replace (startswith [a; b] (a :: b :: t)) with true
    by (simpl; now rewrite !N.eqb_refl).
  replace (startswith [a; b] (b :: t)) with false
    by (simpl; apply N.eqb_neq in a_neq_b; now rewrite a_neq_b).
  reflexivity.
Qed.

Lemma count_found (s : str) (i : nat) :
  find sep s = Some i -> count sep s = S (count sep (skipn (i + 2) s)).
Proof.
  revert i; induction s as [|c s IH]; intros i.
  - discriminate.
  - rewrite find_cons. destruct (startswith sep (c :: s)) eqn:E.
    + intros H; injection H as <-.
      apply startswith_split in E. rewrite E at 1.
      apply count_behind_separator.
    + destruct (find sep s) as [j|]; simpl option_map; [|discriminate].
      intros H; injection H as <-.
      cbn [count]. rewrite E. rewrite (IH j eq_refl). reflexivity.
Qed.

Lemma split_length_bounded (n : nat) (s : str) :
  length s <= n -> length (split sep s) = S (count sep s).
Proof.
  revert s; induction n as [|n IH]; intros s Hn;
    (rewrite split_unfold by discriminate);
    destruct (find sep s) as [i|] eqn:E.
  - apply find_some in E as [_ E]. simpl in E. lia.
  - apply find_none_count in E. now rewrite E.
  - rewrite (count_found _ E). cbn [length]. f_equal.
    apply find_some in E as [_ E]. simpl in E.
    apply IH. rewrite length_skipn. simpl. lia.
  - apply find_none_count in E. now rewrite E.
Qed.

Lemma split_length (s : str) : length (split sep s) = S (count sep s).
Proof. now apply split_length_bounded with (n := length s). Qed.

Lemma split_fields (k t : str) :
  count sep (k ++ sep ++ t) = 1 -> split sep (k ++ sep ++ t) = [k; t].
Proof.
  intros Hc.
  assert (Hf : find sep (k ++ sep ++ t) = Some (length k)).
  { apply find_only_occurrence; [apply startswith_app | assumption]. }
  assert (Hs : skipn (length k + 2) (k ++ sep ++ t) = t).
  { rewrite skipn_app, skipn_all2 by lia.
    replace (length k + 2 - length k) with 2 by lia. reflexivity. }
  rewrite (count_found _ Hf), Hs in Hc.
  rewrite split_unfold by discriminate. rewrite Hf.
  change (length sep) with 2. rewrite Hs.
  rewrite firstn_app, Nat.sub_diag, firstn_all, app_nil_r.
  rewrite split_not_found; [reflexivity | discriminate | lia].
Qed.

End TwoCharacters.

(** ** [strip] *)

Lemma dropwhile_blank (p : char -> bool) (s : str) :
  Forall (fun c => p c = true) s -> dropwhile p s = [].
Proof. induction 1 as [|c s Hc _ IH]; simpl; [|rewrite Hc]; auto. Qed.

Lemma dropwhile_prefix (p : char -> bool) (s : str) :
  exists l, s = l ++ dropwhile p s /\ Forall (fun c => p c = true) l.
Proof.
  induction s as [|c s (l & E & Hl)]; simpl.
  - exists []; auto.
  - destruct (p c) eqn:Hc.
    + exists (c :: l); split; [simpl; congruence | auto].
    + exists []; auto.
Qed.

Lemma dropwhile_head (p : char -> bool) (s : str) (c : char) (t : str) :
  dropwhile p s = c :: t -> p c = false.
Proof.
  induction s as [|x s IH]; simpl; [discriminate|].
  destruct (p x) eqn:Hx; [assumption|].
  intros E; injection E as -> _; assumption.
Qed.

Lemma dropwhile_app (p : char -> bool) (s r : str) :
  dropwhile p (s ++ r) =
  match dropwhile p s with
  | [] => dropwhile p r
  | _ :: _ => dropwhile p s ++ r
  end.
Proof.
  induction s as [|x s IH]; simpl; [now destruct (dropwhile p r)|].
  destruct (p x); [assumption | reflexivity].
Qed.

Lemma strip_blank (s : str) : blank s -> strip s = [].
Proof.
  intros H. unfold strip, lstrip. now rewrite (dropwhile_blank _ H).
Qed.

Lemma strip_app_space (s : str) (c : char) :
  isspace c = true -> strip (s ++ [c]) = strip s.
Proof.
  intros Hc. unfold strip, lstrip, rstrip.
  rewrite dropwhile_app.
  destruct (dropwhile isspace s) as [|x m] eqn:E.
  - simpl. now rewrite Hc.
  - rewrite rev_app_distr. simpl rev at 2. cbn [app dropwhile].
    now rewrite Hc.
Qed.

Lemma strip_surrounding (s : str) :
  exists l r,
    s = l ++ strip s ++ r /\ blank l /\ blank r
    /\ (forall c t, strip s = c :: t -> isspace c = false)
    /\ (forall t c, strip s = t ++ [c] -> isspace c = false).
Proof.
  destruct (dropwhile_prefix isspace s) as (l & El & Hl).
  destruct (dropwhile_prefix isspace (rev (lstrip s))) as (r & Er & Hr).
  apply (f_equal (@rev char)) in Er.
  rewrite rev_involutive, rev_app_distr in Er.
  fold (rstrip (lstrip s)) in Er. fold (strip s) in Er. fold (lstrip s) in El.
  exists l, (rev r). repeat split.
  - now rewrite <- Er.
  - exact Hl.
  - now apply Forall_rev.
  - intros c t E. rewrite E in Er. simpl in Er.
    now apply (@dropwhile_head isspace s c (t ++ rev r)).
  - intros t c E. unfold strip, rstrip in E.
    apply (f_equal (@rev char)) in E.
    rewrite rev_involutive, rev_app_distr in E. simpl in E.
    now apply dropwhile_head in E.
Qed.

(** ** The loop *)

Lemma separator_fields (k t : str) :
  count separator (k ++ separator ++ t) = 1 ->
  split separator (k ++ separator ++ t) = [k; t].
Proof. apply split_fields; discriminate. Qed.

Lemma separator_split_length (s : str) :
  length (split separator s) = S (count separator s).
Proof. apply split_length; discriminate. Qed.

Section Run.

Variable py : Interpreter.

Lemma body_denotes (st : State) (line : str) (e : event) :
  line_denotes py line e -> body py st line = Ok (tally st e).
Proof.
  intros (field & -> & Hc & Hi). unfold body, tally.
  rewrite (separator_fields _ _ Hc). cbn [unpack2 bind]. rewrite Hi.
  cbn [bind].
  destruct (eqb_str (kind e) pipeline); [reflexivity|].
  destruct (eqb_str (kind e) audio_engine); reflexivity.
Qed.

(** A line denotes at most one record: its kind field and its timestamp
    are determined by the line. *)
Lemma line_denotes_unique (line : str) (e1 e2 : event) :
  line_denotes py line e1 -> line_denotes py line e2 -> e1 = e2.
Proof.
  intros (f1 & E1 & C1 & I1) (f2 & E2 & C2 & I2).
  assert (S1 : split separator line = [kind e1; f1])
    by (rewrite E1 in C1 |- *; now apply separator_fields).
  assert (S2 : split separator line = [kind e2; f2])
    by (rewrite E2 in C2 |- *; now apply separator_fields).
  rewrite S1 in S2. injection S2 as Hk Hf. subst f2.
  rewrite I1 in I2. injection I2 as Ht.
  destruct e1, e2; simpl in *; congruence.
Qed.

Lemma for_loop_denotes (ls : list str) (events : list event) :
  Forall2 (line_denotes py) ls events ->
  forall st, for_loop py st ls = Ok (fold_left tally events st).
Proof.
  induction 1 as [|line e ls events He _ IH]; intros st; simpl.
  - reflexivity.
  - rewrite (body_denotes st He). apply IH.
Qed.

(** An exception raised by the body does not depend on the state. *)
Lemma body_raises_anywhere (st st' : State) (line : str) (e : exception) :
  body py st line = Raise e -> body py st' line = Raise e.
Proof.
  unfold body.
  destruct (unpack2 (split separator line)) as [[item ts]|e']; cbn [bind];
    [|trivial].
  destruct (int py ts) as [t|e']; cbn [bind]; [|trivial].
  destruct (eqb_str item pipeline); [discriminate|].
  destruct (eqb_str item audio_engine); discriminate.
Qed.

Lemma for_loop_raises (ls : list str) (line : str) (e : exception) :
  In line ls ->
  (forall st, body py st line = Raise e) ->
  forall st, exists e', for_loop py st ls = Raise e'.
Proof.
  intros Hin Hline.
  induction ls as [|l ls IH]; intros st; [destruct Hin|].
  simpl. destruct (body py st l) as [st'|e'] eqn:E; cbn [bind].
  - destruct Hin as [->|Hin]; [rewrite Hline in E; discriminate | now apply IH].
  - now exists e'.
Qed.

Lemma script_raises (data line : str) (e : exception) :
  In line (lines data) ->
  (forall st, body py st line = Raise e) ->
  exists why, script py data = ([], Some (ValueError why)).
Proof.
  intros Hin Hline.
  pose proof for_loop_raises as F.
  destruct (F _ _ _ Hin Hline initial) as [[why] E].
  exists why. unfold script, accumulate. now rewrite E.
Qed.

End Run.

(** ** The series built from the records *)

Lemma counting_from (c : Z) (n : nat) :
  ((c + 1) :: map (fun i => c + 1 + Z.of_nat i) (seq 1 n))%Z
  = map (fun i => (c + Z.of_nat i)%Z) (seq 1 (S n)).
Proof.
  cbn [seq map]. f_equal.
  rewrite <- (seq_shift n 1), map_map.
  apply map_ext; intros i; lia.
Qed.

Lemma of_kind_cons (k : str) (e : event) (events : list event) :
  of_kind k (e :: events) =
  if eqb_str (kind e) k then e :: of_kind k events else of_kind k events.
Proof. reflexivity. Qed.

Lemma tally_all (events : list event) (st : State) :
  let st' := fold_left tally events st in
  let p := of_kind pipeline events in
  let a := of_kind audio_engine events in
  x_pipeline st' = x_pipeline st ++ map timestamp p
  /\ y_pipeline st' =
     y_pipeline st
       ++ map (fun i => (pipeline_count st + Z.of_nat i)%Z) (seq 1 (length p))
  /\ x_audio_engine st' = x_audio_engine st ++ map timestamp a
  /\ y_audio_engine st' =
     y_audio_engine st
       ++ map (fun i => (audio_engine_count st + Z.of_nat i)%Z)
            (seq 1 (length a)).
Proof.
  revert st; induction events as [|e events IH]; intros st; cbn zeta.
  - simpl. now rewrite !app_nil_r.
  - cbn [fold_left]. specialize (IH (tally st e)). cbn zeta in IH.
    destruct IH as (Hxp & Hyp & Hxa & Hya).
    rewrite Hxp, Hyp, Hxa, Hya, !of_kind_cons. clear Hxp Hyp Hxa Hya.
    unfold tally.
    destruct (eqb_str (kind e) pipeline) eqn:Ep.
    + apply eqb_str_eq in Ep. rewrite Ep.
      change (eqb_str pipeline audio_engine) with false.
      cbn [x_pipeline y_pipeline x_audio_engine y_audio_engine
           pipeline_count audio_engine_count length map].
      rewrite <- !app_assoc, <- counting_from. auto.
    + destruct (eqb_str (kind e) audio_engine) eqn:Ea.
      * cbn [x_pipeline y_pipeline x_audio_engine y_audio_engine
             pipeline_count audio_engine_count length map].
        rewrite <- !app_assoc, <- counting_from. auto.
      * auto.
Qed.

Section Series.

Variable py : Interpreter.

(** On a well-formed input the loop ends without an exception, in the
    state the specification's accumulate operation gives. *)
Lemma accumulate_refines (data : str) (events : list event) :
  well_formed py data events ->
  accumulate py data = Ok (fold_left tally events initial).
Proof. intros H. unfold accumulate. now apply for_loop_denotes. Qed.

Lemma accumulate_series (data : str) (events : list event) :
  well_formed py data events ->
  exists st,
    accumulate py data = Ok st
    /\ x_pipeline st = map timestamp (of_kind pipeline events)
    /\ y_pipeline st = counting (length (of_kind pipeline events))
    /\ x_audio_engine st = map timestamp (of_kind audio_engine events)
    /\ y_audio_engine st = counting (length (of_kind audio_engine events)).
Proof.
  intros H. exists (fold_left tally events initial).
  split; [now apply accumulate_refines|].
  destruct (tally_all events initial) as (Hxp & Hyp & Hxa & Hya).
  cbn zeta in *. rewrite Hxp, Hyp, Hxa, Hya. unfold counting. simpl.
  repeat split; apply map_ext; intros i; lia.
Qed.

End Series.

(** ** The relation and the function agree *)

Section Agreement.

Variable py : Interpreter.

Lemma eqb_str_false (a b : str) : eqb_str a b = false -> a <> b.
Proof. intros E H. apply eqb_str_eq in H. congruence. Qed.

Lemma body_iteration (st : State) (line : str) :
  iteration py st line (body py st line).
Proof.
  unfold body.
  destruct (split separator line) as [|item [|ts [|x rest]]] eqn:Hs;
    cbn [unpack2 bind];
    try (apply iteration_unpack_raises; rewrite Hs; reflexivity).
  destruct (int py ts) as [t|e] eqn:Hi; cbn [bind].
  - destruct (eqb_str item pipeline) eqn:Ep.
    + apply eqb_str_eq in Ep. eapply iteration_pipeline; eassumption.
    + apply eqb_str_false in Ep.
      destruct (eqb_str item audio_engine) eqn:Ea.
      * apply eqb_str_eq in Ea. eapply iteration_audio_engine; eassumption.
      * apply eqb_str_false in Ea. eapply iteration_other; eassumption.
  - eapply iteration_int_raises; eassumption.
Qed.

Lemma iteration_body (st : State) (line : str) (r : result State) :
  iteration py st line r -> body py st line = r.
Proof.
  unfold body.
  destruct 1 as [e H | item ts e Hs Hi | item ts t Hs Hi Hp
                | item ts t Hs Hi Hp Ha | item ts t Hs Hi Hp Ha].
  - now rewrite H.
  - rewrite Hs; cbn [unpack2 bind]. now rewrite Hi.
  - rewrite Hs; cbn [unpack2 bind]. rewrite Hi; cbn [bind].
    now rewrite Hp, eqb_str_refl.
  - rewrite Hs; cbn [unpack2 bind]. rewrite Hi; cbn [bind].
    now rewrite (eqb_str_neq Hp), Ha, eqb_str_refl.
  - rewrite Hs; cbn [unpack2 bind]. rewrite Hi; cbn [bind].
    now rewrite (eqb_str_neq Hp), (eqb_str_neq Ha).
Qed.

Lemma for_loop_loop (ls : list str) (st : State) :
  loop py st ls (for_loop py st ls).
Proof.
  revert st; induction ls as [|line ls IH]; intros st; simpl.
  - constructor.
  - pose proof (body_iteration st line) as Hb.
    destruct (body py st line) as [st'|e]; cbn [bind].
    + eapply loop_continues; [exact Hb | apply IH].
    + now apply loop_raises.
Qed.

Lemma loop_for_loop (ls : list str) (st : State) (r : result State) :
  loop py st ls r -> for_loop py st ls = r.
Proof.
  induction 1 as [st | st line rest e Hb | st line rest st' r Hb _ IH]; simpl.
  - reflexivity.
  - apply iteration_body in Hb. now rewrite Hb.
  - apply iteration_body in Hb. now rewrite Hb.
Qed.

Lemma script_runs (data : str) : runs py data (script py data).
Proof.
  unfold script, accumulate.
  pose proof (for_loop_loop (lines data) initial) as H.
  destruct (for_loop py initial (lines data)); now constructor.
Qed.

Lemma runs_script (data : str) (o : list plt_call * option exception) :
  runs py data o -> script py data = o.
Proof.
  unfold script, accumulate.
  intros [st H | e H]; apply loop_for_loop in H; now rewrite H.
Qed.

End Agreement.

(** * The claims *)

(** C1. On the five-line scenario ([pipeline, 10], [audio_engine, 12],
    [pipeline, 15], [unknown_kind, 20], [pipeline, 30]) the loop ends without
    an exception; the pipeline series is [(10,1), (15,2), (30,3)] and the
    audio_engine series is [(12,1)]; the [unknown_kind] line is one of the
    lines, and processing it raises nothing and changes no variable. *)
Theorem scenario_series (py : Interpreter) :
  exists st,
    accumulate py scenario = Ok st
    /\ combine (x_pipeline st) (y_pipeline st) = [(10, 1); (15, 2); (30, 3)]%Z
    /\ combine (x_audio_engine st) (y_audio_engine st) = [(12, 1)]%Z
    /\ length (x_pipeline st) = length (y_pipeline st)
    /\ length (x_audio_engine st) = length (y_audio_engine st)
    /\ nth_error (lines scenario) 3 = Some (lit "unknown_kind, 20")
    /\ (forall st0, body py st0 (lit "unknown_kind, 20") = Ok st0)
    /\ snd (script py scenario) = None.
Proof.
  eexists. split; [vm_compute; reflexivity|].
  repeat split.
Qed.

(** C2. On a well-formed input the loop ends without an exception, and for
    each tracked kind the x list and the y list are as long as the number of
    lines whose kind field is that kind. *)
Theorem series_length (py : Interpreter) (data : str) (events : list event) :
  well_formed py data events ->
  exists st,
    accumulate py data = Ok st
    /\ length (x_pipeline st) = length (of_kind pipeline events)
    /\ length (y_pipeline st) = length (of_kind pipeline events)
    /\ length (x_audio_engine st) = length (of_kind audio_engine events)
    /\ length (y_audio_engine st) = length (of_kind audio_engine events).
Proof.
  intros H.
  destruct (accumulate_series H) as (st & Hst & Hxp & Hyp & Hxa & Hya).
  exists st. rewrite Hxp, Hyp, Hxa, Hya. unfold counting.
  now rewrite !length_map, !length_seq.
Qed.

(** C3. On a well-formed input the y list of each tracked kind is
    1, 2, 3, ... up to the number of matching lines: the entry at index i
    is i + 1. *)
Theorem counter_column (py : Interpreter) (data : str) (events : list event) :
  well_formed py data events ->
  exists st,
    accumulate py data = Ok st
    /\ y_pipeline st = counting (length (of_kind pipeline events))
    /\ y_audio_engine st = counting (length (of_kind audio_engine events))
    /\ (forall i, i < length (y_pipeline st) ->
                  nth i (y_pipeline st) 0%Z = (Z.of_nat i + 1)%Z)
    /\ (forall i, i < length (y_audio_engine st) ->
                  nth i (y_audio_engine st) 0%Z = (Z.of_nat i + 1)%Z).
Proof.
  intros H.
  destruct (accumulate_series H) as (st & Hst & _ & Hyp & _ & Hya).
  exists st. rewrite Hyp, Hya.
  assert (Hnth : forall n i, i < length (counting n) ->
                             nth i (counting n) 0%Z = (Z.of_nat i + 1)%Z).
  { intros n i. unfold counting. rewrite length_map, length_seq. intros Hi.
    change 0%Z with (Z.of_nat 0). rewrite map_nth, seq_nth by assumption.
    lia. }
  repeat split; auto.
Qed.

(** C4. On a well-formed input the x list of each tracked kind holds the
    timestamps of the lines of that kind, in the order of the lines. *)
Theorem timestamp_column (py : Interpreter) (data : str) (events : list event) :
  well_formed py data events ->
  exists st,
    accumulate py data = Ok st
    /\ x_pipeline st = map timestamp (of_kind pipeline events)
    /\ x_audio_engine st = map timestamp (of_kind audio_engine events).
Proof.
  intros H.
  destruct (accumulate_series H) as (st & Hst & Hxp & _ & Hxa & _).
  exists st. auto.
Qed.

(** C5. A well-formed line whose kind is neither [pipeline] nor
    [audio_engine] raises no exception and leaves the two counters and the
    four lists as they were. *)
Theorem unknown_kind_ignored
  (py : Interpreter) (st : State) (line : str) (e : event) :
  line_denotes py line e ->
  kind e <> pipeline ->
  kind e <> audio_engine ->
  body py st line = Ok st.
Proof.
  intros H Hp Ha. rewrite (body_denotes st H). unfold tally.
  now rewrite (eqb_str_neq Hp), (eqb_str_neq Ha).
Qed.

(** C6. If one of the lines has no separator, or has it once with a field
    behind it that [int] rejects, the run ends in a ValueError and no
    plotting call is made. *)
Theorem malformed_line_fatal (py : Interpreter) (data line : str) :
  In line (lines data) ->
  count separator line = 0
  \/ (exists k field e,
        line = k ++ separator ++ field
        /\ count separator line = 1
        /\ int py field = Raise e) ->
  exists why, script py data = ([], Some (ValueError why)).
Proof.
  intros Hin [H0 | (k & field & e & -> & H1 & Hi)].
  - apply script_raises with (line := line)
                             (e := ValueError not_enough_values); trivial.
    intros st. unfold body.
    rewrite split_not_found; [reflexivity | discriminate | assumption].
  - apply script_raises with (line := k ++ separator ++ field) (e := e);
      trivial.
    intros st. unfold body.
    rewrite (separator_fields _ _ H1). cbn [unpack2 bind]. now rewrite Hi.
Qed.

(** C7. The outcome of a run (the plotting calls with the four lists, or the
    exception) is determined by the file content: two runs on the same
    content have the same outcome. *)
Theorem run_deterministic
  (py : Interpreter) (data : str) (o1 o2 : list plt_call * option exception) :
  runs py data o1 -> runs py data o2 -> o1 = o2.
Proof.
  intros H1 H2. apply runs_script in H1, H2. congruence.
Qed.

(** C8. [strip] removes whitespace at the two ends of the content and
    nothing else, and a newline added at the end of the file changes neither
    the lines the loop sees nor the result of the loop nor the outcome. *)
Theorem trailing_newline (py : Interpreter) (data : str) :
  (exists l r,
      data = l ++ strip data ++ r /\ blank l /\ blank r
      /\ (forall c t, strip data = c :: t -> isspace c = false)
      /\ (forall t c, strip data = t ++ [c] -> isspace c = false))
  /\ lines (data ++ newline) = lines data
  /\ accumulate py (data ++ newline) = accumulate py data
  /\ script py (data ++ newline) = script py data.
Proof.
  split; [apply strip_surrounding|].
  assert (E : lines (data ++ newline) = lines data).
  { unfold lines, newline. now rewrite strip_app_space. }
  unfold script, accumulate. now rewrite E.
Qed.

(** C9. On an empty or all-whitespace content the loop sees the single
    line [''], the unpacking of its one field raises ValueError, and no
    plotting call is made. *)
Theorem blank_file_fatal (py : Interpreter) (data : str) :
  blank data ->
  lines data = [[]]
  /\ script py data = ([], Some (ValueError not_enough_values)).
Proof.
  intros H.
  assert (E : lines data = [[]]).
  { unfold lines. now rewrite (strip_blank H). }
  split; [exact E|].
  unfold script, accumulate. now rewrite E.
Qed.

(** C10. A line with two or more separators raises ValueError at the
    unpacking, whatever the state, as a line with none does; a content with
    such a line ends in a ValueError with no plotting call made. *)
Theorem surplus_separator_fatal (py : Interpreter) (data line : str) :
  In line (lines data) ->
  2 <= count separator line ->
  (forall st, body py st line = Raise (ValueError too_many_values))
  /\ (forall st l, count separator l = 0 ->
                   body py st l = Raise (ValueError not_enough_values))
  /\ exists why, script py data = ([], Some (ValueError why)).
Proof.
  intros Hin H2.
  assert (Hb : forall st, body py st line = Raise (ValueError too_many_values)).
  { intros st. unfold body.
    pose proof (separator_split_length line) as Hl.
    destruct (split separator line) as [|f1 [|f2 [|f3 rest]]];
      simpl in Hl; try lia. reflexivity. }
  split; [exact Hb|]. split.
  - intros st l H0. unfold body.
    rewrite split_not_found; [reflexivity | discriminate | assumption].
  - now apply script_raises with (line := line)
                                 (e := ValueError too_many_values).
Qed.

(** * The statements on concrete inputs *)

(** Well-formedness of a concrete input, by evaluation: the lines are
    computed, and each is cut at its separator. *)
Ltac denotes_by_evaluation :=
  eexists; split; [simpl; reflexivity | split; vm_compute; reflexivity].

Ltac well_formed_by_evaluation :=
  unfold well_formed;
  match goal with
  | |- Forall2 _ (lines ?d) _ =>
      let l := eval vm_compute in (lines d) in change (lines d) with l
  end;
  repeat (apply Forall2_cons; [denotes_by_evaluation|]); apply Forall2_nil.

Lemma series_length_scenario :
  well_formed ascii_only scenario scenario_events
  /\ exists st,
       accumulate ascii_only scenario = Ok st
       /\ length (x_pipeline st) = 3 /\ length (y_pipeline st) = 3
       /\ length (x_audio_engine st) = 1 /\ length (y_audio_engine st) = 1.
Proof.
  assert (H : well_formed ascii_only scenario scenario_events)
    by well_formed_by_evaluation.
  split; [exact H | exact (@series_length ascii_only scenario scenario_events H)].
Defined.

Lemma counter_column_scenario :
  well_formed ascii_only scenario scenario_events
  /\ exists st,
       accumulate ascii_only scenario = Ok st
       /\ y_pipeline st = [1; 2; 3]%Z
       /\ y_audio_engine st = [1]%Z
       /\ (forall i, i < length (y_pipeline st) ->
                     nth i (y_pipeline st) 0%Z = (Z.of_nat i + 1)%Z)
       /\ (forall i, i < length (y_audio_engine st) ->
                     nth i (y_audio_engine st) 0%Z = (Z.of_nat i + 1)%Z).
Proof.
  assert (H : well_formed ascii_only scenario scenario_events)
    by well_formed_by_evaluation.
  split; [exact H | exact (@counter_column ascii_only scenario scenario_events H)].
Defined.

Lemma timestamp_column_unsorted :
  well_formed ascii_only unsorted unsorted_events
  /\ exists st,
       accumulate ascii_only unsorted = Ok st
       /\ x_pipeline st = [30; 10]%Z
       /\ x_audio_engine st = [7]%Z.
Proof.
  assert (H : well_formed ascii_only unsorted unsorted_events)
    by well_formed_by_evaluation.
  split; [exact H | exact (@timestamp_column ascii_only unsorted unsorted_events H)].
Defined.

Lemma unknown_kind_ignored_scenario :
  line_denotes ascii_only (lit "unknown_kind, 20")
    {| kind := lit "unknown_kind"; timestamp := 20 |}
  /\ body ascii_only initial (lit "unknown_kind, 20") = Ok initial.
Proof.
  assert (H : line_denotes ascii_only (lit "unknown_kind, 20")
                {| kind := lit "unknown_kind"; timestamp := 20 |})
    by denotes_by_evaluation.
  split; [exact H|].
  apply (@unknown_kind_ignored ascii_only initial (lit "unknown_kind, 20")
           {| kind := lit "unknown_kind"; timestamp := 20 |} H);
    vm_compute; discriminate.
Defined.

Lemma malformed_line_fatal_examples :
  (exists why, script ascii_only no_separator = ([], Some (ValueError why)))
  /\ (exists why, script ascii_only no_integer = ([], Some (ValueError why))).
Proof.
  split.
  - apply (@malformed_line_fatal ascii_only no_separator (lit "pipeline 15")).
    + vm_compute. right; left; reflexivity.
    + left. vm_compute. reflexivity.
  - apply (@malformed_line_fatal ascii_only no_integer
             (lit "audio_engine, ten")).
    + vm_compute. left; reflexivity.
    + right. exists audio_engine, (lit "ten"), (ValueError invalid_literal).
      repeat split; vm_compute; reflexivity.
Defined.

Lemma run_deterministic_scenario :
  runs ascii_only scenario (script ascii_only scenario)
  /\ runs ascii_only scenario
       ([ plot [10; 15; 30]%Z [1; 2; 3]%Z pipeline;
          plot [12]%Z [1]%Z audio_engine;
          xlabel (lit "Time"); ylabel (lit "Count"); legend; show ], None)
  /\ script ascii_only scenario
     = ([ plot [10; 15; 30]%Z [1; 2; 3]%Z pipeline;
          plot [12]%Z [1]%Z audio_engine;
          xlabel (lit "Time"); ylabel (lit "Count"); legend; show ], None).
Proof.
  pose proof (script_runs ascii_only scenario) as H.
  split; [exact H|]. split; [exact H|].
  exact (@run_deterministic ascii_only scenario _ _ H H).
Defined.

Lemma blank_file_fatal_example :
  blank only_whitespace
  /\ lines only_whitespace = [[]]
  /\ script ascii_only only_whitespace
     = ([], Some (ValueError not_enough_values)).
Proof.
  assert (H : blank only_whitespace) by (repeat constructor).
  split; [exact H | exact (@blank_file_fatal ascii_only only_whitespace H)].
Defined.

Lemma surplus_separator_fatal_example :
  (forall st, body ascii_only st (lit "a, b, 1")
              = Raise (ValueError too_many_values))
  /\ exists why, script ascii_only two_separators = ([], Some (ValueError why)).
Proof.
  assert (Hin : In (lit "a, b, 1") (lines two_separators))
    by (vm_compute; right; left; reflexivity).
  assert (Hc : 2 <= count separator (lit "a, b, 1"))
    by (vm_compute; lia).
  destruct (@surplus_separator_fatal ascii_only two_separators
              (lit "a, b, 1") Hin Hc) as (Hb & _ & Hs).
  split; assumption.
Defined.

(** * Further properties of the script *)

(** ** [split] and [join] *)

Lemma split_not_nil (sep s : str) : sep <> [] -> split sep s <> [].
Proof.
  intros Hsep. rewrite split_unfold by assumption.
  destruct (find sep s); discriminate.
Qed.

Lemma join_cons (sep a : str) (l : list str) :
  l <> [] -> join sep (a :: l) = a ++ sep ++ join sep l.
Proof. destruct l; [congruence | reflexivity]. Qed.

Lemma join_split_bounded (sep : str) (n : nat) (s : str) :
  sep <> [] -> length s <= n -> join sep (split sep s) = s.
Proof.
  intros Hsep. revert s; induction n as [|n IH]; intros s Hn;
    (rewrite split_unfold by assumption);
    destruct (find sep s) as [i|] eqn:E; try reflexivity;
    pose proof (find_some _ _ E) as [Hs Hi];
    assert (0 < length sep) by (destruct sep; [congruence | simpl; lia]).
  - lia.
  - rewrite join_cons by now apply split_not_nil.
    rewrite IH by (rewrite length_skipn; lia).
    now rewrite <- Hs.
Qed.

Lemma join_split (sep s : str) : sep <> [] -> join sep (split sep s) = s.
Proof. intros H. now apply join_split_bounded with (n := length s). Qed.

Lemma startswith_firstn (sep s : str) (n : nat) :
  startswith sep (firstn n s) = true -> startswith sep s = true.
Proof.
  revert s n; induction sep as [|a sep IH]; intros s n; [reflexivity|].
  destruct s as [|c s]; [now rewrite firstn_nil|].
  destruct n as [|n]; simpl; [discriminate|].
  rewrite !andb_true_iff. intros [-> H]. split; [reflexivity | eauto].
Qed.

Lemma count_before_found (sep s : str) (i : nat) :
  sep <> [] -> find sep s = Some i -> count sep (firstn i s) = 0.
Proof.
  intros Hsep.
  assert (Hnil : count sep [] = 0) by (destruct sep; [congruence | reflexivity]).
  revert i; induction s as [|c s IH]; intros i.
  - now rewrite find_nil.
  - rewrite find_cons. destruct (startswith sep (c :: s)) eqn:E.
    + intros H; injection H as <-. exact Hnil.
    + destruct (find sep s) as [j|]; simpl option_map; [|discriminate].
      intros H; injection H as <-.
      cbn [firstn count]. rewrite (IH j eq_refl).
      destruct (startswith sep (c :: firstn j s)) eqn:E'; [|reflexivity].
      apply (startswith_firstn sep (c :: s) (S j)) in E'. congruence.
Qed.

Lemma split_pieces_bounded (sep : str) (n : nat) (s : str) :
  sep <> [] -> length s <= n ->
  Forall (fun piece => count sep piece = 0) (split sep s).
Proof.
  intros Hsep. revert s; induction n as [|n IH]; intros s Hn;
    (rewrite split_unfold by assumption);
    destruct (find sep s) as [i|] eqn:E;
    try (constructor; [now apply find_none_count | constructor]);
    pose proof (find_some _ _ E) as [Hs Hi];
    assert (0 < length sep) by (destruct sep; [congruence | simpl; lia]).
  - lia.
  - constructor; [now apply count_before_found|].
    apply IH. rewrite length_skipn. lia.
Qed.

Lemma split_pieces (sep s : str) :
  sep <> [] -> Forall (fun piece => count sep piece = 0) (split sep s).
Proof. intros H. now apply split_pieces_bounded with (n := length s). Qed.

(** *** A separator of one character

    Cutting at a one-character separator cuts each side of an occurrence on
    its own. *)

Lemma find_char_app (c : char) (a b : str) :
  find [c] (a ++ c :: b) =
  match find [c] a with
  | Some i => Some i
  | None => Some (length a)
  end.
Proof.
  induction a as [|x a IH].
  - simpl. now rewrite N.eqb_refl.
  - cbn [app]. rewrite !find_cons.
    change (startswith [c] (x :: a ++ c :: b)) with (N.eqb c x && true).
    change (startswith [c] (x :: a)) with (N.eqb c x && true).
    destruct (N.eqb c x); simpl; [reflexivity|].
    rewrite IH. destruct (find [c] a); reflexivity.
Qed.

Lemma split_char_app_bounded (c : char) (n : nat) (a b : str) :
  length a <= n ->
  split [c] (a ++ c :: b) = split [c] a ++ split [c] b.
Proof.
  revert a; induction n as [|n IH]; intros a Hn;
    rewrite (split_unfold (sep := [c]) (a ++ c :: b)) by discriminate;
    rewrite (split_unfold (sep := [c]) a) by discriminate;
    rewrite find_char_app;
    destruct (find [c] a) as [i|] eqn:E;
    try (rewrite firstn_app, Nat.sub_diag, firstn_all, app_nil_r;
         rewrite skipn_app, skipn_all2 by (cbn [length]; lia);
         replace (length a + length [c] - length a) with 1
           by (cbn [length]; lia);
         reflexivity);
    pose proof (find_some _ _ E) as [_ Hi]; cbn [length] in Hi.
  - lia.
  - rewrite firstn_app, skipn_app.
    replace (i - length a) with 0 by lia.
    replace (i + length [c] - length a) with 0 by (cbn [length]; lia).
    cbn [firstn skipn]. rewrite app_nil_r. cbn [app]. f_equal.
    apply IH. rewrite length_skipn. cbn [length]. lia.
Qed.

Lemma split_char_app (c : char) (a b : str) :
  split [c] (a ++ c :: b) = split [c] a ++ split [c] b.
Proof. now apply split_char_app_bounded with (n := length a). Qed.

(** ** More on [strip] *)

Lemma dropwhile_nil (p : char -> bool) (s : str) :
  dropwhile p s = [] -> Forall (fun c => p c = true) s.
Proof.
  induction s as [|c s IH]; simpl; [constructor|].
  destruct (p c) eqn:Hc; [auto | discriminate].
Qed.

Lemma dropwhile_fixed (p : char -> bool) (s : str) :
  (forall c t, s = c :: t -> p c = false) -> dropwhile p s = s.
Proof.
  destruct s as [|c s]; [reflexivity|].
  intros H. simpl. now rewrite (H c s eq_refl).
Qed.

Lemma blank_app (a b : str) : blank a -> blank b -> blank (a ++ b).
Proof. intros Ha Hb. apply Forall_app. now split. Qed.

Lemma blank_rev (a : str) : blank a -> blank (rev a).
Proof. apply Forall_rev. Qed.

Lemma lstrip_not_blank (s : str) : ~ blank s -> lstrip s <> [].
Proof. intros H E. apply H. now apply dropwhile_nil. Qed.

Lemma lstrip_app (s r : str) : ~ blank s -> lstrip (s ++ r) = lstrip s ++ r.
Proof.
  intros H. apply lstrip_not_blank in H. unfold lstrip in *.
  rewrite dropwhile_app. destruct (dropwhile isspace s); congruence.
Qed.

Lemma rstrip_app (l s : str) : ~ blank s -> rstrip (l ++ s) = l ++ rstrip s.
Proof.
  intros H. unfold rstrip. rewrite rev_app_distr.
  assert (Hr : ~ blank (rev s)).
  { intros Hb. apply H. rewrite <- (rev_involutive s). now apply blank_rev. }
  fold (lstrip (rev s ++ rev l)). rewrite (lstrip_app _ Hr).
  unfold lstrip. now rewrite rev_app_distr, rev_involutive.
Qed.

Lemma lstrip_blank_app (w s : str) : blank w -> lstrip (w ++ s) = lstrip s.
Proof.
  intros H. unfold lstrip. rewrite dropwhile_app.
  now rewrite (dropwhile_blank _ H).
Qed.

Lemma rstrip_app_blank (s w : str) : blank w -> rstrip (s ++ w) = rstrip s.
Proof.
  intros H. unfold rstrip. rewrite rev_app_distr.
  fold (lstrip (rev w ++ rev s)).
  now rewrite (lstrip_blank_app _ (blank_rev H)).
Qed.

Lemma strip_padded (w1 w2 s : str) :
  blank w1 -> blank w2 -> strip (w1 ++ s ++ w2) = strip s.
Proof.
  intros H1 H2. unfold strip. rewrite (lstrip_blank_app _ H1).
  unfold lstrip at 1. rewrite dropwhile_app. fold (lstrip s).
  destruct (lstrip s) as [|c m] eqn:E.
  - now rewrite (dropwhile_blank _ H2).
  - now apply rstrip_app_blank.
Qed.

Lemma strip_between (d1 m d2 : str) :
  ~ blank d1 -> ~ blank d2 ->
  strip (d1 ++ m ++ d2) = lstrip d1 ++ m ++ rstrip d2.
Proof.
  intros H1 H2. unfold strip. rewrite (lstrip_app _ H1).
  rewrite !app_assoc. rewrite (rstrip_app _ H2). reflexivity.
Qed.

Lemma strip_not_blank (s : str) : ~ blank s -> ~ blank (strip s).
Proof.
  intros H Hb.
  destruct (strip_surrounding s) as (l & r & E & Hl & Hr & _).
  apply H. rewrite E. auto using blank_app.
Qed.

Lemma lstrip_strip (s : str) : lstrip (strip s) = strip s.
Proof.
  destruct (strip_surrounding s) as (_ & _ & _ & _ & _ & Hh & _).
  now apply dropwhile_fixed.
Qed.

Lemma rstrip_strip (s : str) : rstrip (strip s) = strip s.
Proof.
  destruct (strip_surrounding s) as (_ & _ & _ & _ & _ & _ & Hl).
  unfold rstrip. rewrite dropwhile_fixed; [apply rev_involutive|].
  intros c t E. apply (Hl (rev t) c).
  rewrite <- (rev_involutive (strip s)), E. reflexivity.
Qed.

(** ** More on the loop *)

Lemma tally_counts (events : list event) (st : State) :
  let st' := fold_left tally events st in
  let p := length (of_kind pipeline events) in
  let a := length (of_kind audio_engine events) in
  pipeline_count st' = (pipeline_count st + Z.of_nat p)%Z
  /\ audio_engine_count st' = (audio_engine_count st + Z.of_nat a)%Z
  /\ p + a <= length events.
Proof.
  revert st; induction events as [|e events IH]; intros st; cbn zeta.
  - simpl. lia.
  - cbn [fold_left]. specialize (IH (tally st e)). cbn zeta in IH.
    destruct IH as (Hp & Ha & Hle). rewrite Hp, Ha, !of_kind_cons.
    clear Hp Ha. unfold tally.
    destruct (eqb_str (kind e) pipeline) eqn:Ep.
    + apply eqb_str_eq in Ep. rewrite Ep in *.
      change (eqb_str pipeline audio_engine) with false.
      cbn [pipeline_count audio_engine_count length]. lia.
    + destruct (eqb_str (kind e) audio_engine);
        cbn [pipeline_count audio_engine_count length]; lia.
Qed.

Section Loop.

Variable py : Interpreter.

Lemma for_loop_app (l1 l2 : list str) (st : State) :
  for_loop py st (l1 ++ l2) =
  (st' <- for_loop py st l1 ;; for_loop py st' l2).
Proof.
  revert st; induction l1 as [|line l1 IH]; intros st; simpl; [reflexivity|].
  destruct (body py st line) as [st'|e]; cbn [bind]; [apply IH | reflexivity].
Qed.

(** A line on which the body raises nothing is well formed. *)
Lemma body_ok_denotes (st st' : State) (line : str) :
  body py st line = Ok st' ->
  exists e, line_denotes py line e /\ st' = tally st e.
Proof.
  unfold body. intros H.
  pose proof (separator_split_length line) as Hlen.
  pose proof (join_split (sep := separator) line) as Hjoin.
  destruct (split separator line) as [|item [|field [|x rest]]];
    cbn [unpack2 bind] in H; try discriminate.
  destruct (int py field) as [t|e] eqn:Hi; cbn [bind] in H; [|discriminate].
  exists {| kind := item; timestamp := t |}. split.
  - exists field. cbn [kind timestamp].
    assert (E : line = item ++ separator ++ field)
      by (symmetry; apply Hjoin; discriminate).
    simpl in Hlen. repeat split; [exact E | lia | assumption].
  - unfold tally. cbn [kind timestamp].
    destruct (eqb_str item pipeline); [congruence|].
    destruct (eqb_str item audio_engine); congruence.
Qed.

Lemma for_loop_ok_denotes (ls : list str) (st st' : State) :
  for_loop py st ls = Ok st' ->
  exists events,
    Forall2 (line_denotes py) ls events /\ st' = fold_left tally events st.
Proof.
  revert st; induction ls as [|line ls IH]; intros st; simpl.
  - intros H; injection H as <-. exists []. split; [constructor | reflexivity].
  - destruct (body py st line) as [st1|e] eqn:Hb; cbn [bind]; [|discriminate].
    intros H. apply IH in H as (events & Hev & ->).
    apply body_ok_denotes in Hb as (e & He & ->).
    exists (e :: events). split; [now constructor | reflexivity].
Qed.

End Loop.

(** ** Blank lines and one-character cuts *)

Lemma not_blank_cons (c : char) (s : str) : isspace c = false -> ~ blank (c :: s).
Proof. intros Hc H. apply Forall_inv in H. congruence. Qed.

Lemma blank_no_separator (l : str) : blank l -> count separator l = 0.
Proof.
  induction 1 as [|c l Hc _ IH]; [reflexivity|].
  cbn [count]. rewrite IH.
  change (startswith separator (c :: l))
    with (N.eqb 44 c && startswith [32%N] l).
  destruct (N.eqb_spec 44 c) as [<-|_]; [discriminate Hc | reflexivity].
Qed.

Lemma join_blank (sep : str) (l : list str) :
  blank (join sep l) -> Forall blank l.
Proof.
  induction l as [|a l IH]; [constructor|].
  destruct l as [|b l].
  - simpl. intros H. repeat constructor. exact H.
  - rewrite join_cons by discriminate. unfold blank at 1.
    rewrite !Forall_app. intros (Ha & _ & Hl). constructor; auto.
Qed.

Lemma count_char_found (c : char) (s : str) (i : nat) :
  find [c] s = Some i -> count [c] s = S (count [c] (skipn (i + 1) s)).
Proof.
  revert i; induction s as [|x s IH]; intros i; [discriminate|].
  rewrite find_cons. cbn [count].
  destruct (startswith [c] (x :: s)).
  - intros H; injection H as <-. reflexivity.
  - destruct (find [c] s) as [j|]; simpl option_map; [|discriminate].
    intros H; injection H as <-. now rewrite (IH j eq_refl).
Qed.

Lemma split_char_length_bounded (c : char) (n : nat) (s : str) :
  length s <= n -> length (split [c] s) = S (count [c] s).
Proof.
  revert s; induction n as [|n IH]; intros s Hn;
    (rewrite split_unfold by discriminate);
    destruct (find [c] s) as [i|] eqn:E;
    try (apply find_none_count in E; now rewrite E);
    pose proof (find_some _ _ E) as [_ Hi]; cbn [length] in Hi.
  - lia.
  - rewrite (count_char_found _ _ E). cbn [length]. f_equal.
    apply IH. rewrite length_skipn. lia.
Qed.

Lemma split_char_length (c : char) (s : str) :
  length (split [c] s) = S (count [c] s).
Proof. now apply split_char_length_bounded with (n := length s). Qed.

(** ** Whitespace around a number *)

Lemma int_parse_int (py : Interpreter) (s : str) :
  int py s = parse_int py (to_ascii py s).
Proof. reflexivity. Qed.

Lemma ascii_isspace_cases (c : char) :
  ascii_isspace c = true -> (9 <= c <= 13 \/ c = 32)%N.
Proof.
  unfold ascii_isspace.
  rewrite orb_true_iff, andb_true_iff, !N.leb_le, N.eqb_eq. tauto.
Qed.

Lemma ascii_isspace_plain (c : char) :
  ascii_isspace c = true ->
  (c <? 127)%N = true /\ (c <? 128)%N = true /\ (c =? 0x5F)%N = false
  /\ (N.eqb 0x5F c) = false /\ digit_value c = None.
Proof.
  intros H. apply ascii_isspace_cases in H. unfold digit_value.
  assert (H48 : (0x30 <=? c)%N = false \/ (c <=? 0x39)%N = false).
  { destruct H as [H| ->]; [left; apply N.leb_gt; lia | left; reflexivity]. }
  repeat split; try (apply N.ltb_lt; lia); try (apply N.eqb_neq; lia).
  destruct H48 as [-> | E]; [reflexivity|].
  rewrite E. now rewrite andb_false_r.
Qed.

Section Whitespace.

Variable py : Interpreter.

Lemma ascii_blank_forallb (w : str) :
  ascii_blank w -> @forallb N (fun c => (c <? 128)%N) w = true.
Proof.
  induction 1 as [|c w Hc _ IH]; [reflexivity|]. simpl.
  apply ascii_isspace_plain in Hc as (_ & -> & _). exact IH.
Qed.

Lemma transform_blank_app (w s : str) :
  ascii_blank w ->
  transform_decimal_and_space py (w ++ s)
  = w ++ transform_decimal_and_space py s.
Proof.
  induction 1 as [|c w Hc _ IH]; [reflexivity|]. simpl.
  apply ascii_isspace_plain in Hc as (-> & _). now rewrite IH.
Qed.

Lemma transform_app_blank (s w : str) :
  ascii_blank w ->
  transform_decimal_and_space py (s ++ w) = transform_decimal_and_space py s
  \/ transform_decimal_and_space py (s ++ w)
     = transform_decimal_and_space py s ++ w.
Proof.
  intros Hw. induction s as [|c s IH].
  - right. pose proof (transform_blank_app [] Hw) as E.
    change (transform_decimal_and_space py []) with (@nil char) in E.
    rewrite !app_nil_r in E. exact E.
  - simpl. destruct (c <? 127)%N;
      [|destruct (isspace c); [|destruct (to_decimal py c); [|now left]]];
      (destruct IH as [-> | ->]; [now left | now right]).
Qed.

Lemma to_ascii_padded (w1 s w2 : str) :
  ascii_blank w1 -> ascii_blank w2 ->
  exists w', ascii_blank w'
             /\ to_ascii py (w1 ++ s ++ w2) = w1 ++ to_ascii py s ++ w'.
Proof.
  intros H1 H2. unfold to_ascii.
  rewrite !forallb_app. change (@forallb char) with (@forallb N).
  rewrite (ascii_blank_forallb H1), (ascii_blank_forallb H2).
  rewrite andb_true_r. cbn [andb].
  destruct (forallb (fun c : N => (c <? 128)%N) s).
  - now exists w2.
  - rewrite (transform_blank_app _ H1).
    destruct (transform_app_blank s H2) as [-> | ->].
    + exists []. split; [constructor | now rewrite app_nil_r].
    + now exists w2.
Qed.

Lemma scan_digits_app_blank (w : str) :
  ascii_blank w ->
  forall (s : str) (prev_us : bool) (digits : nat) (acc : Z),
    scan_digits prev_us digits acc (s ++ w)
    = match scan_digits prev_us digits acc s with
      | None => None
      | Some (v, n, rest) => Some (v, n, rest ++ w)
      end.
Proof.
  intros Hw. induction s as [|c s IH]; intros prev_us digits acc.
  - cbn [app]. destruct Hw as [|c w Hc _]; [simpl; now destruct prev_us|].
    apply ascii_isspace_plain in Hc as (_ & _ & E & _ & D).
    simpl. rewrite E, D. now destruct prev_us.
  - simpl. destruct (c =? 95)%N.
    + destruct prev_us; [reflexivity | apply IH].
    + destruct (digit_value c); [apply IH | now destruct prev_us].
Qed.

Lemma parse_digits_app_blank (sign : Z) (s w : str) :
  ascii_blank w -> parse_digits py sign (s ++ w) = parse_digits py sign s.
Proof.
  intros Hw. unfold parse_digits.
  assert (E : startswith [0x5F%N] (s ++ w) = startswith [0x5F%N] s).
  { destruct s as [|c s]; [|reflexivity].
    destruct Hw as [|c w Hc _]; [reflexivity|].
    apply ascii_isspace_plain in Hc as (_ & _ & _ & E & _).
    cbn [app startswith]. now rewrite E. }
  rewrite E, (scan_digits_app_blank Hw).
  destruct (startswith [0x5F%N] s); [reflexivity|].
  destruct (scan_digits false 0 0 s) as [[[v n] rest]|]; [|reflexivity].
  rewrite dropwhile_app, (dropwhile_blank _ Hw).
  destruct (dropwhile ascii_isspace rest); reflexivity.
Qed.

Lemma parse_int_padded (w1 t w2 : str) :
  ascii_blank w1 -> ascii_blank w2 ->
  parse_int py (w1 ++ t ++ w2) = parse_int py t.
Proof.
  intros H1 H2. unfold parse_int.
  rewrite dropwhile_app, (dropwhile_blank _ H1), dropwhile_app.
  destruct (dropwhile ascii_isspace t) as [|c r] eqn:E.
  - now rewrite (dropwhile_blank _ H2).
  - cbn [app]. destruct (c =? 43)%N;
      [|destruct (c =? 45)%N];
      try apply parse_digits_app_blank; trivial.
    now apply (parse_digits_app_blank 1 (c :: r)).
Qed.

End Whitespace.

(** * What else the script does *)

(** X1. The loop ends without an exception exactly on the well-formed
    inputs, and then in the state the records give: every line holds the
    separator once and [int] accepts what follows it. *)
Theorem accumulate_ok_iff (py : Interpreter) (data : str) (st : State) :
  accumulate py data = Ok st
  <-> exists events,
        well_formed py data events /\ st = fold_left tally events initial.
Proof.
  split.
  - intros H. now apply for_loop_ok_denotes.
  - intros (events & H & ->). now apply accumulate_refines.
Qed.

(** X2. A run that ends without an exception has made exactly the six
    plotting calls, and in each [plot] call the y list is 1, 2, ... up to
    the length of the x list; the two x lists together are no longer than
    the number of lines. *)
Theorem chart_calls (py : Interpreter) (data : str) (calls : list plt_call) :
  script py data = (calls, None) ->
  exists xp xa,
    calls = [ plot xp (counting (length xp)) pipeline;
              plot xa (counting (length xa)) audio_engine;
              xlabel (lit "Time"); ylabel (lit "Count"); legend; show ]
    /\ length xp + length xa <= length (lines data).
Proof.
  unfold script. destruct (accumulate py data) as [st|e] eqn:E;
    [|discriminate]. intros H; injection H as <-.
  apply for_loop_ok_denotes in E as (events & Hev & ->).
  destruct (tally_all events initial) as (Hxp & Hyp & Hxa & Hya).
  destruct (tally_counts events initial) as (_ & _ & Hle).
  cbn zeta in *. simpl in Hxp, Hyp, Hxa, Hya.
  exists (map timestamp (of_kind pipeline events)),
         (map timestamp (of_kind audio_engine events)).
  rewrite !length_map, (Forall2_length Hev). split; [|exact Hle].
  unfold render, counting. rewrite Hxp, Hyp, Hxa, Hya.
  repeat f_equal; apply map_ext; intros i; lia.
Qed.

(** X3. The exception of a run is the one of the first malformed line:
    if the lines before it are well formed, the run ends with the exception
    the body raises on that line, whatever the lines behind it are. *)
Theorem first_malformed_line_decides
  (py : Interpreter) (data : str) (pre : list str) (bad : str)
  (post : list str) (events : list event) (e : exception) :
  lines data = pre ++ bad :: post ->
  Forall2 (line_denotes py) pre events ->
  body py initial bad = Raise e ->
  script py data = ([], Some e).
Proof.
  intros Hl Hpre Hbad. unfold script, accumulate.
  rewrite Hl, for_loop_app, (for_loop_denotes Hpre). cbn [bind for_loop].
  pose proof body_raises_anywhere as B.
  now rewrite (B py initial _ bad e Hbad).
Qed.

(** X4. Whitespace around the content, blank lines before the first record
    and behind the last one included, changes neither the lines the loop
    sees nor the outcome of the run. *)
Theorem surrounding_whitespace_ignored
  (py : Interpreter) (w1 data w2 : str) :
  blank w1 -> blank w2 ->
  lines (w1 ++ data ++ w2) = lines data
  /\ script py (w1 ++ data ++ w2) = script py data.
Proof.
  intros H1 H2.
  assert (E : lines (w1 ++ data ++ w2) = lines data)
    by (unfold lines; now rewrite strip_padded).
  split; [exact E|]. unfold script, accumulate. now rewrite E.
Qed.

(** X5. A blank line between two parts that are not blank is fatal: the
    run ends in a ValueError and no plotting call is made. *)
Theorem interior_blank_line_fatal (py : Interpreter) (d1 w d2 : str) :
  ~ blank d1 -> ~ blank d2 -> blank w ->
  exists why,
    script py (d1 ++ newline ++ w ++ newline ++ d2)
    = ([], Some (ValueError why)).
Proof.
  intros H1 H2 Hw.
  assert (Hs : split newline w <> []) by (apply split_not_nil; discriminate).
  destruct (split newline w) as [|l0 ls] eqn:Ew; [congruence|].
  assert (Hb : blank l0).
  { assert (Hj : Forall blank (split newline w)).
    { apply join_blank with (sep := newline).
      rewrite join_split by discriminate. exact Hw. }
    rewrite Ew in Hj. now apply Forall_inv in Hj. }
  apply script_raises with (line := l0) (e := ValueError not_enough_values).
  - unfold lines.
    replace (d1 ++ newline ++ w ++ newline ++ d2)
      with (d1 ++ (newline ++ w ++ newline) ++ d2)
      by (now rewrite <- !app_assoc).
    rewrite (strip_between _ H1 H2). rewrite <- !app_assoc.
    change newline with [10%N : char]. cbn [app].
    rewrite !split_char_app.
    change (split [10%N : char] w) with (split newline w). rewrite Ew.
    apply in_or_app; right. apply in_or_app; left. now left.
  - intros st. unfold body.
    rewrite split_not_found;
      [reflexivity | discriminate | now apply blank_no_separator].
Qed.

(** X6. Neither cut loses or invents a character.  The lines, joined by
    newlines, are the stripped content; no line holds a newline; there is
    one more line than newlines.  The fields of a line, joined by the
    separator, are the line; no field holds the separator; there is one more
    field than occurrences of the separator. *)
Theorem cuts_partition (data line : str) :
  (join newline (lines data) = strip data
   /\ Forall (fun l => count newline l = 0) (lines data)
   /\ length (lines data) = S (count newline (strip data)))
  /\ (join separator (split separator line) = line
      /\ Forall (fun f => count separator f = 0) (split separator line)
      /\ length (split separator line) = S (count separator line)).
Proof.
  unfold lines. repeat split.
  - apply join_split; discriminate.
  - apply split_pieces; discriminate.
  - apply split_char_length.
  - apply join_split; discriminate.
  - apply split_pieces; discriminate.
  - apply separator_split_length.
Qed.

(** X7. A log in two parts: when neither part is blank, the lines of the
    two stripped parts put together with a newline are the lines of the
    first followed by the lines of the second, and the loop on the whole is
    the loop on the first continued, from the state it reached, on the
    lines of the second. *)
Theorem log_in_two_parts (py : Interpreter) (d1 d2 : str) :
  ~ blank d1 -> ~ blank d2 ->
  lines (strip d1 ++ newline ++ strip d2) = lines d1 ++ lines d2
  /\ accumulate py (strip d1 ++ newline ++ strip d2)
     = (st <- accumulate py d1 ;; for_loop py st (lines d2)).
Proof.
  intros H1 H2.
  assert (E : lines (strip d1 ++ newline ++ strip d2) = lines d1 ++ lines d2).
  { unfold lines.
    rewrite (strip_between _ (strip_not_blank H1) (strip_not_blank H2)).
    rewrite lstrip_strip, rstrip_strip.
    change newline with [10%N : char]. cbn [app].
    now rewrite split_char_app. }
  split; [exact E|].
  unfold accumulate. rewrite E. apply for_loop_app.
Qed.

(** X8. From any state, a loop that ends without an exception has only
    appended: each list is the old list followed by new entries, the new y
    entries of a kind count on from the old counter, each counter has grown
    by the number of entries appended for its kind, and no more entries were
    appended than there were lines. *)
Theorem loop_appends
  (py : Interpreter) (ls : list str) (st st' : State) :
  for_loop py st ls = Ok st' ->
  exists xp xa,
    x_pipeline st' = x_pipeline st ++ xp
    /\ y_pipeline st' =
       y_pipeline st
         ++ map (fun i => (pipeline_count st + Z.of_nat i)%Z)
              (seq 1 (length xp))
    /\ pipeline_count st' = (pipeline_count st + Z.of_nat (length xp))%Z
    /\ x_audio_engine st' = x_audio_engine st ++ xa
    /\ y_audio_engine st' =
       y_audio_engine st
         ++ map (fun i => (audio_engine_count st + Z.of_nat i)%Z)
              (seq 1 (length xa))
    /\ audio_engine_count st' = (audio_engine_count st + Z.of_nat (length xa))%Z
    /\ length xp + length xa <= length ls.
Proof.
  intros H. apply for_loop_ok_denotes in H as (events & Hev & ->).
  destruct (tally_all events st) as (Hxp & Hyp & Hxa & Hya).
  destruct (tally_counts events st) as (Hcp & Hca & Hle).
  cbn zeta in *.
  exists (map timestamp (of_kind pipeline events)),
         (map timestamp (of_kind audio_engine events)).
  rewrite !length_map, (Forall2_length Hev). repeat split; assumption.
Qed.

Lemma tally_swap (st : State) (e1 e2 : event) :
  kind e1 <> kind e2 -> tally (tally st e1) e2 = tally (tally st e2) e1.
Proof.
  intros Hk. unfold tally.
  destruct (eqb_str (kind e1) pipeline) eqn:P1,
           (eqb_str (kind e2) pipeline) eqn:P2,
           (eqb_str (kind e1) audio_engine) eqn:A1,
           (eqb_str (kind e2) audio_engine) eqn:A2;
    try reflexivity; exfalso;
    repeat match goal with
           | H : eqb_str _ _ = true |- _ => apply eqb_str_eq in H
           end; congruence.
Qed.

(** X9. Two neighbouring well-formed lines of different kinds can change
    places without changing what the loop returns: the series of a kind
    depends on the lines of the other kinds neither by their content nor by
    their place. *)
Theorem different_kinds_commute
  (py : Interpreter) (st : State) (pre : list str) (l1 l2 : str)
  (post : list str) (e1 e2 : event) :
  line_denotes py l1 e1 ->
  line_denotes py l2 e2 ->
  kind e1 <> kind e2 ->
  for_loop py st (pre ++ l1 :: l2 :: post)
  = for_loop py st (pre ++ l2 :: l1 :: post).
Proof.
  intros H1 H2 Hk. rewrite !for_loop_app.
  destruct (for_loop py st pre) as [st0|e]; cbn [bind for_loop];
    [|reflexivity].
  rewrite (body_denotes st0 H1), (body_denotes st0 H2). cbn [bind].
  rewrite (body_denotes (tally st0 e1) H2), (body_denotes (tally st0 e2) H1).
  cbn [bind]. now rewrite tally_swap.
Qed.

(** X10. [int] skips tabs, newlines, vertical tabs, form feeds, carriage
    returns and spaces on both sides of its argument: with such characters
    added around a string it returns, or raises, what it does on the string
    itself.  A timestamp field may so be indented or followed by blanks. *)
Theorem int_ignores_surrounding_blanks
  (py : Interpreter) (w1 s w2 : str) :
  ascii_blank w1 -> ascii_blank w2 ->
  int py (w1 ++ s ++ w2) = int py s.
Proof.
  intros H1 H2. rewrite !int_parse_int.
  destruct (to_ascii_padded py s H1 H2) as (w' & Hw' & ->).
  now apply parse_int_padded.
Qed.

(** * The further statements on concrete inputs *)

Lemma chart_calls_scenario :
  script ascii_only scenario
  = ([ plot [10; 15; 30]%Z [1; 2; 3]%Z pipeline;
       plot [12]%Z [1]%Z audio_engine;
       xlabel (lit "Time"); ylabel (lit "Count"); legend; show ], None)
  /\ exists xp xa,
       [ plot [10; 15; 30]%Z [1; 2; 3]%Z pipeline;
         plot [12]%Z [1]%Z audio_engine;
         xlabel (lit "Time"); ylabel (lit "Count"); legend; show ]
       = [ plot xp (counting (length xp)) pipeline;
           plot xa (counting (length xa)) audio_engine;
           xlabel (lit "Time"); ylabel (lit "Count"); legend; show ]
       /\ length xp + length xa <= 5.
Proof.
  assert (H : script ascii_only scenario
              = ([ plot [10; 15; 30]%Z [1; 2; 3]%Z pipeline;
                   plot [12]%Z [1]%Z audio_engine;
                   xlabel (lit "Time"); ylabel (lit "Count"); legend; show ],
                 None))
    by (vm_compute; reflexivity).
  split; [exact H | exact (@chart_calls ascii_only scenario _ H)].
Defined.

Lemma first_malformed_line_decides_example :
  lines malformed_second_line
  = [lit "pipeline, 10"] ++ lit "pipeline 15" :: [lit "a, b, c"]
  /\ body ascii_only initial (lit "a, b, c") = Raise (ValueError too_many_values)
  /\ script ascii_only malformed_second_line
     = ([], Some (ValueError not_enough_values)).
Proof.
  assert (Hl : lines malformed_second_line
               = [lit "pipeline, 10"] ++ lit "pipeline 15" :: [lit "a, b, c"])
    by (vm_compute; reflexivity).
  assert (Hpre : Forall2 (line_denotes ascii_only) [lit "pipeline, 10"]
                   [ {| kind := pipeline; timestamp := 10 |} ])
    by (apply Forall2_cons; [denotes_by_evaluation | apply Forall2_nil]).
  assert (Hbad : body ascii_only initial (lit "pipeline 15")
                 = Raise (ValueError not_enough_values))
    by (vm_compute; reflexivity).
  split; [exact Hl|]. split; [vm_compute; reflexivity|].
  exact (@first_malformed_line_decides ascii_only malformed_second_line
           [lit "pipeline, 10"] (lit "pipeline 15") [lit "a, b, c"]
           [ {| kind := pipeline; timestamp := 10 |} ]
           (ValueError not_enough_values) Hl Hpre Hbad).
Defined.

Lemma surrounding_whitespace_ignored_example :
  lines (lit (lf ++ " ") ++ scenario ++ lit (lf ++ lf)) = lines scenario
  /\ script ascii_only (lit (lf ++ " ") ++ scenario ++ lit (lf ++ lf))
     = script ascii_only scenario.
Proof.
  apply (@surrounding_whitespace_ignored ascii_only
           (lit (lf ++ " ")) scenario (lit (lf ++ lf)));
    repeat constructor.
Defined.

Lemma interior_blank_line_fatal_example :
  exists why,
    script ascii_only
      (lit "pipeline, 10" ++ newline ++ lit " " ++ newline
       ++ lit "pipeline, 15")
    = ([], Some (ValueError why)).
Proof.
  apply (@interior_blank_line_fatal ascii_only
           (lit "pipeline, 10") (lit " ") (lit "pipeline, 15")).
  - exact (@not_blank_cons 112%N (tl (lit "pipeline, 10")) eq_refl).
  - exact (@not_blank_cons 112%N (tl (lit "pipeline, 15")) eq_refl).
  - repeat constructor.
Defined.

Lemma log_in_two_parts_example :
  lines (strip first_part ++ newline ++ strip second_part)
  = [lit "pipeline, 10"; lit "audio_engine, 12";
     lit "pipeline, 15"; lit "other, 1"]
  /\ accumulate ascii_only (strip first_part ++ newline ++ strip second_part)
     = (st <- accumulate ascii_only first_part ;;
        for_loop ascii_only st (lines second_part)).
Proof.
  apply (@log_in_two_parts ascii_only first_part second_part).
  - intros H. apply Forall_inv_tail, Forall_inv in H. discriminate H.
  - exact (@not_blank_cons 112%N (tl second_part) eq_refl).
Defined.

Lemma loop_appends_example :
  for_loop ascii_only
    {| pipeline_count := 2; audio_engine_count := 0;
       x_pipeline := [5; 6]%Z; y_pipeline := [1; 2]%Z;
       x_audio_engine := []; y_audio_engine := [] |}
    (lines unsorted)
  = Ok {| pipeline_count := 4; audio_engine_count := 1;
          x_pipeline := [5; 6; 30; 10]%Z;
          y_pipeline := [1; 2; 3; 4]%Z;
          x_audio_engine := [7]%Z; y_audio_engine := [1]%Z |}
  /\ exists xp xa,
       [5; 6; 30; 10]%Z = [5; 6]%Z ++ xp
       /\ [1; 2; 3; 4]%Z
          = [1; 2]%Z ++ map (fun i => (2 + Z.of_nat i)%Z) (seq 1 (length xp))
       /\ 4%Z = (2 + Z.of_nat (length xp))%Z
       /\ [7]%Z = [] ++ xa
       /\ [1]%Z = [] ++ map (fun i => (0 + Z.of_nat i)%Z) (seq 1 (length xa))
       /\ 1%Z = (0 + Z.of_nat (length xa))%Z
       /\ length xp + length xa <= 3.
Proof.
  assert (H : for_loop ascii_only
                {| pipeline_count := 2; audio_engine_count := 0;
                   x_pipeline := [5; 6]%Z; y_pipeline := [1; 2]%Z;
                   x_audio_engine := []; y_audio_engine := [] |}
                (lines unsorted)
              = Ok {| pipeline_count := 4; audio_engine_count := 1;
                      x_pipeline := [5; 6; 30; 10]%Z;
          y_pipeline := [1; 2; 3; 4]%Z;
                      x_audio_engine := [7]%Z; y_audio_engine := [1]%Z |})
    by (vm_compute; reflexivity).
  split; [exact H | exact (@loop_appends ascii_only _ _ _ H)].
Defined.

Lemma different_kinds_commute_example :
  for_loop ascii_only initial
    ([] ++ lit "pipeline, 10" :: lit "audio_engine, 12" :: [lit "pipeline, 15"])
  = for_loop ascii_only initial
      ([] ++ lit "audio_engine, 12" :: lit "pipeline, 10"
          :: [lit "pipeline, 15"]).
Proof.
  apply (@different_kinds_commute ascii_only initial []
           (lit "pipeline, 10") (lit "audio_engine, 12") [lit "pipeline, 15"]
           {| kind := pipeline; timestamp := 10 |}
           {| kind := audio_engine; timestamp := 12 |}).
  - denotes_by_evaluation.
  - denotes_by_evaluation.
  - vm_compute. discriminate.
Defined.

Lemma int_ignores_surrounding_blanks_example :
  int ascii_only (lit "  " ++ lit "-1_000" ++ lit (" " ++ lf)) = Ok (-1000)%Z.
Proof.
  rewrite (@int_ignores_surrounding_blanks ascii_only
             (lit "  ") (lit "-1_000") (lit (" " ++ lf)));
    [reflexivity | repeat constructor | repeat constructor].
Defined.
